(** * refraction.py: complex refractive index of liquid water and of ice

    A shallow embedding of [complex_n_water_liebe93] and
    [complex_n_ice_matzler06] and the properties of their validity guards
    and of the arrays they return.

    The two functions are written once, against the interface [Numeric] of
    the scalar type they compute on, and run in a small state-and-exception
    monad over a store of numpy arrays.  The instance of the interface is
    IEEE binary64 ([IEEE.numeric], on Rocq's primitive floats), with the
    kernels of the C library, [exp] and [csqrt], left as parameters: what
    is proved of binary64 holds with every C library. *)

From Stdlib Require Import ZArith Bool Floats Lia.
From stdpp Require Import base option list gmap.

Set Warnings "-inexact-float".

(** ** The scalar interface *)

(** What the code asks of [float64] and of complex numbers: decimal
    literals, the four operations, the two comparisons, not-a-number, the
    complex division of line 104, and the kernels numpy delegates to the C
    library ([np.exp] and the complex [np.sqrt]).  A complex number is its
    pair of components. *)
Class Numeric := {
  num : Type;
  nan : num;
  dec : Z → nat → num;          (* [dec m k] is the literal m·10^-k *)
  neg : num → num;
  add : num → num → num;
  sub : num → num → num;
  mul : num → num → num;
  div : num → num → num;
  lt : num → num → bool;
  le : num → num → bool;
  isnan : num → bool;
  np_exp : num → num;
  cdivide : num * num → num * num → num * num;
  np_sqrt : num * num → num * num
}.

Declare Scope py_scope.
Delimit Scope py_scope with py.
Infix "+" := add : py_scope.
Infix "-" := sub : py_scope.
Infix "*" := mul : py_scope.
Infix "/" := div : py_scope.
Infix "<?" := lt : py_scope.
Infix "<=?" := le : py_scope.
Notation "- x" := (neg x) : py_scope.

(** The exceptions the embedded code can raise. *)
Inductive exn := ValueError | IndexError.

(** The three [return complex_n] statements of each function. *)
Inductive exit := AtTemperatureGuard | AtFrequencyGuard | AtEnd.

Inductive outcome (S A : Type) :=
  | Done (a : A) (s : S)
  | Raised (e : exn) (s : S).
Arguments Done {S A} a s.
Arguments Raised {S A} e s.

(** A complex number is the pair of its components; an array of shape (nf, 2)
    is the list of its rows. *)
Abbreviation complex := (num * num)%type.
Abbreviation row := (num * num)%type.
Abbreviation loc := nat.

Section Program.
Context `{Numeric}.
Local Open Scope py_scope.

(** *** Complex arithmetic *)

(** Promotion of a float to a complex number, as CPython up to 3.13 does
    with the float operand of a mixed operation, and the literal [1j].
    Sum, difference and product are Python's: by components, and the
    product by the textbook formula. *)
Definition cpx (x : num) : complex := (x, dec 0 0).
Definition j1 : complex := (dec 0 0, dec 1 0).

Definition cadd (a b : complex) : complex := (a.1 + b.1, a.2 + b.2).
Definition csub (a b : complex) : complex := (a.1 - b.1, a.2 - b.2).
Definition cmul (a b : complex) : complex :=
  (a.1 * b.1 - a.2 * b.2, a.1 * b.2 + a.2 * b.1).
Definition np_real (z : complex) : num := z.1.
Definition np_imag (z : complex) : num := z.2.

(** Python's [a > b]. *)
Definition gt (a b : num) : bool := b <? a.

(** *** The store of arrays *)

(** [junk] is what uninitialised memory holds: the content [np.empty]
    hands out. *)

Record mem := Mem {
  arrays : gmap loc (list row);
  junk : loc → nat → row
}.

Definition M (A : Type) : Type := mem → outcome mem A.

#[export] Instance M_ret : MRet M := λ A a m, Done a m.
#[export] Instance M_bind : MBind M := λ A B f c m,
  match c m with
  | Done a m' => f a m'
  | Raised e m' => Raised e m'
  end.

Definition raise {A} (e : exn) : M A := λ m, Raised e m.

Fixpoint for_in {A} (l : list A) (body : A → M ()) : M () :=
  match l with
  | [] => mret ()
  | x :: l' => body x ;; for_in l' body
  end.

(** [np.empty((nf, 2))]: a new array, at an address not in use, holding
    whatever the memory held. *)
Definition np_empty (nf : nat) : M loc := λ m,
  let l := fresh (dom (arrays m)) in
  Done l (Mem (<[l := junk m l <$> seq 0 nf]> (arrays m)) (junk m)).

(** [a[:] = v]. *)
Definition fill (a : loc) (v : num) : M () := λ m,
  Done () (Mem (alter (fmap (λ _, (v, v))) a (arrays m)) (junk m)).

(** [a[iv, c] = v], with numpy's bound checks. *)
Definition setitem (a : loc) (iv c : nat) (v : num) : M () := λ m,
  match arrays m !! a with
  | Some rows =>
      match rows !! iv, c with
      | Some r, 0 => Done () (Mem (<[a := <[iv := (v, r.2)]> rows]> (arrays m)) (junk m))
      | Some r, 1 => Done () (Mem (<[a := <[iv := (r.1, v)]> rows]> (arrays m)) (junk m))
      | _, _ => Raised IndexError m
      end
  | None => Raised IndexError m
  end.

(** [freq[iv]]. *)
Definition getitem (freq : list num) (iv : nat) : M num :=
  match freq !! iv with
  | Some f => mret f
  | None => raise IndexError
  end.

(** [np.min] and [np.max]: numpy's reduction keeps the accumulator when it
    compares below (above) the next element or is not-a-number, so that a
    not-a-number entry propagates; an empty array has no minimum and the
    call raises [ValueError]. *)
Definition minimum (a b : num) : num := if (a <=? b) || isnan a then a else b.
Definition maximum (a b : num) : num := if (b <=? a) || isnan a then a else b.

Definition np_min (freq : list num) : M num :=
  match freq with
  | [] => raise ValueError
  | x :: l => mret (foldl minimum x l)
  end.

Definition np_max (freq : list num) : M num :=
  match freq with
  | [] => raise ValueError
  | x :: l => mret (foldl maximum x l)
  end.

(** ** The two functions *)

Definition complex_n_water_liebe93 (freq : list num) (t : num) : M (exit * loc) :=
  let nf := length freq in
  complex_n ← np_empty nf;
  fill complex_n nan ;;
  let TEMP_0_C := dec 27315 2 in
  if (t <? TEMP_0_C - dec 40 0) || gt t (TEMP_0_C + dec 100 0)
  then mret (AtTemperatureGuard, complex_n)
  else
  lo ← np_min freq;
  out ← (if lo <? dec 10 0 then mret true
         else hi ← np_max freq; mret (gt hi (dec 1000 0)));
  if out : bool then mret (AtFrequencyGuard, complex_n)
  else
  let theta := dec 1 0 - dec 300 0 / t in
  let e0 := dec 7766 2 - dec 1033 1 * theta in
  let e1 := dec 671 4 * e0 in
  let f1 := dec 202 1 + dec 146 0 * theta + dec 316 0 * theta * theta in
  let e2 := dec 352 2 in
  let f2 := dec 398 1 * f1 in
  for_in (seq 0 nf) (λ iv,
    f ← getitem freq iv;
    let ifGHz := cadd (cpx (dec 0 0)) (cmul j1 (cpx f)) in
    let n := np_sqrt
      (cadd (cadd (cpx e2)
                  (cdivide (cpx (e1 - e2))
                           (csub (cpx (dec 1 0)) (cdivide ifGHz (cpx f2)))))
            (cdivide (cpx (e0 - e1))
                     (csub (cpx (dec 1 0)) (cdivide ifGHz (cpx f1))))) in
    setitem complex_n iv 0 (np_real n) ;;
    setitem complex_n iv 1 (np_imag n)) ;;
  mret (AtEnd, complex_n).

Definition complex_n_ice_matzler06 (freq : list num) (t : num) : M (exit * loc) :=
  let nf := length freq in
  complex_n ← np_empty nf;
  fill complex_n nan ;;
  let TEMP_0_C := dec 27315 2 in
  if (t <? dec 20 0) || gt t (dec 280 0)
  then mret (AtTemperatureGuard, complex_n)
  else
  lo ← np_min freq;
  out ← (if lo <? dec 1 2 then mret true
         else hi ← np_max freq; mret (gt hi (dec 3000 0)));
  if out : bool then mret (AtFrequencyGuard, complex_n)
  else
  let B1 := dec 207 4 in
  let B2 := dec 116 13 in
  let b := dec 335 0 in
  let deltabeta := np_exp (- dec 9963 3 + dec 372 4 * (t - dec 273 0)) in
  let ebdt := np_exp (b / t) in
  let betam := (B1 / t) * ebdt / ((ebdt - dec 1 0) * (ebdt - dec 1 0)) in
  let theta := dec 300 0 / t - dec 1 0 in
  let alfa := (dec 504 5 + dec 62 4 * theta) * np_exp (- dec 221 1 * theta) in
  let reps := dec 31884 4 + dec 91 5 * (t - dec 273 0) in
  for_in (seq 0 nf) (λ iv,
    f ← getitem freq iv;
    let beta := betam + B2 * f * f + deltabeta in
    let ieps := alfa / f + beta * f in
    let eps := cadd (cpx reps) (cmul j1 (cpx ieps)) in
    let n := np_sqrt eps in
    setitem complex_n iv 0 (np_real n) ;;
    setitem complex_n iv 1 (np_imag n)) ;;
  mret (AtEnd, complex_n).

End Program.

(** What a caller observes of a call from the store [m]: the exception, or
    the [return] statement taken and the rows of the array returned. *)
Inductive result `{Numeric} :=
  | Returns (x : exit) (rows : list row)
  | Raises (e : exn).

Definition call `{Numeric} (c : M (exit * loc)) (m : mem) : option result :=
  match c m with
  | Done (x, l) m' => Returns x <$> arrays m' !! l
  | Raised e _ => Some (Raises e)
  end.

(** ** IEEE binary64 *)

Module IEEE.
Local Open Scope float_scope.

Definition of_Z (z : Z) : float := PrimFloat.of_uint63 (Uint63.of_Z z).

(** A decimal literal is the quotient of two integers that binary64 holds
    exactly, and IEEE division rounds it correctly: the double the Python
    parser produces. *)
Definition literal (m : Z) (k : nat) : float := of_Z m / of_Z (10 ^ Z.of_nat k).

(** The complex numbers of line 104 are Python's ([1j * freq[iv]] is a
    Python complex, and with [t] a Python float so are all the operands),
    and their division is CPython's: the quotient is formed with the ratio
    of the smaller to the larger component of the divisor.  On a divisor
    0+0j CPython raises [ZeroDivisionError]: [None]. *)
Definition py_c_quot (a b : float * float) : option (float * float) :=
  let '(a_real, a_imag) := a in
  let '(b_real, b_imag) := b in
  let abs_breal := if b_real <? 0 then - b_real else b_real in
  let abs_bimag := if b_imag <? 0 then - b_imag else b_imag in
  if abs_bimag <=? abs_breal then
    if abs_breal =? 0 then None
    else
      let ratio := b_imag / b_real in
      let denom := b_real + b_imag * ratio in
      Some ((a_real + a_imag * ratio) / denom, (a_imag - a_real * ratio) / denom)
  else if abs_breal <=? abs_bimag then
    let ratio := b_real / b_imag in
    let denom := b_real * ratio + b_imag in
    Some ((a_real * ratio + a_imag) / denom, (a_imag * ratio - a_real) / denom)
  else Some (PrimFloat.nan, PrimFloat.nan).

(** The kernels of the C library that numpy calls, [exp] and [csqrt].
    They are not part of the repository and differ between platforms in
    the last bits: every statement about binary64 is made for all of
    them. *)
Record libm := Libm {
  libm_exp : float → float;
  libm_csqrt : float * float → float * float
}.

(** What C (Annex G) promises of [csqrt] on a finite argument: a result
    without not-a-number. *)
Definition csqrt_finite (L : libm) : Prop :=
  ∀ a b, is_finite a = true → is_finite b = true →
    is_nan (libm_csqrt L (a, b)).1 = false
    ∧ is_nan (libm_csqrt L (a, b)).2 = false.

(** The interface has no exception for a division: the complex division
    of the instance is not-a-number where [py_c_quot] raises.  On line 104
    that is the case exactly when f1 or f2 is zero
    ([line_104_zero_division] below); the float divisions by [t] divide by
    no zero once the temperature guard is passed
    ([accepted_temperature_nonzero]), and the others have a numpy scalar
    as an operand. *)
Definition numeric (L : libm) : Numeric := {|
  num := float;
  nan := PrimFloat.nan;
  dec := literal;
  neg := PrimFloat.opp;
  add := PrimFloat.add;
  sub := PrimFloat.sub;
  mul := PrimFloat.mul;
  div := PrimFloat.div;
  lt := PrimFloat.ltb;
  le := PrimFloat.leb;
  isnan := PrimFloat.is_nan;
  np_exp := libm_exp L;
  cdivide := λ a b, default (PrimFloat.nan, PrimFloat.nan) (py_c_quot a b);
  np_sqrt := libm_csqrt L
|}.

(** A store with no array, its free memory zeroed. *)
Definition mem0 (L : libm) : @mem (numeric L) :=
  @Mem (numeric L) ∅ (λ _ _, (0, 0)).

End IEEE.

(** ** The store: allocation, the loop, the three exits *)

Section Store.
Context `{Numeric}.
Local Open Scope py_scope.

Definition fresh_loc (m : mem) : loc := fresh (dom (arrays m)).

Definition with_array (m : mem) (l : loc) (rows : list row) : mem :=
  Mem (<[l := rows]> (arrays m)) (junk m).

Definition nan_rows (nf : nat) : list row := replicate nf (nan, nan).

Lemma fresh_loc_free m : arrays m !! fresh_loc m = None.
Proof. unfold fresh_loc. apply not_elem_of_dom. apply is_fresh. Qed.

Lemma with_array_lookup m l rows : arrays (with_array m l rows) !! l = Some rows.
Proof. apply lookup_insert_eq. Qed.

Lemma with_array_twice m l r1 r2 :
  with_array (with_array m l r1) l r2 = with_array m l r2.
Proof. unfold with_array; simpl. by rewrite insert_insert_eq. Qed.

(** After [np.empty] and the fill, the new array holds not-a-number in
    every entry, whatever the memory held. *)
Lemma prologue {A} nf (k : loc → M A) m :
  (complex_n ← np_empty nf; fill complex_n nan ;; k complex_n) m
  = k (fresh_loc m) (with_array m (fresh_loc m) (nan_rows nf)).
Proof.
  unfold mbind, M_bind, np_empty, fill, with_array, nan_rows, fresh_loc; simpl.
  rewrite alter_insert_eq, <- list_fmap_compose.
  rewrite (const_fmap _ _ (nan, nan)) by done.
  by rewrite length_seq.
Qed.

(** One iteration writes the two components of row [iv]. *)
Lemma setitem_row m l rows iv (r : row) (v w : num) :
  arrays m !! l = Some rows → rows !! iv = Some r →
  (setitem l iv 0 v ;; setitem l iv 1 w) m
  = Done () (with_array m l (<[iv := (v, w)]> rows)).
Proof.
  intros Hl Hr. unfold mbind, M_bind, setitem. rewrite Hl, Hr. simpl.
  rewrite lookup_insert_eq.
  rewrite list_lookup_insert_eq by (by eapply lookup_lt_Some).
  simpl. rewrite insert_insert_eq, list_insert_insert_eq. done.
Qed.

(** The loop, started at index [length done]: the rows before it are
    written, those after it are not yet. *)
Lemma loop_from (G : num → complex) l (done todo : list num) :
  ∀ (rest : list row) (m : mem),
    length rest = length todo →
    arrays m !! l = Some ((G <$> done) ++ rest) →
    for_in (seq (length done) (length todo))
      (λ iv, f ← getitem (done ++ todo) iv;
             setitem l iv 0 (np_real (G f)) ;;
             setitem l iv 1 (np_imag (G f))) m
    = Done () (with_array m l (G <$> (done ++ todo))).
Proof.
  revert done. induction todo as [|f todo IH]; intros done rest m Hlen Hl.
  - destruct rest; [|done]. simpl in *. rewrite !app_nil_r in *.
    unfold mret, M_ret, with_array. destruct m as [a j]; simpl in *.
    by rewrite insert_id.
  - destruct rest as [|r rest]; [done|]. simpl in Hlen.
    cbn [length seq for_in].
    unfold mbind at 1, M_bind at 1.
    unfold mbind at 1, M_bind at 1, getitem at 1.
    rewrite list_lookup_middle by done. unfold mret at 1, M_ret at 1.
    assert (Hr : ((G <$> done) ++ r :: rest) !! length done = Some r).
    { apply list_lookup_middle. by rewrite length_fmap. }
    rewrite (setitem_row _ _ _ _ _ _ _ Hl Hr).
    replace (done ++ f :: todo) with ((done ++ [f]) ++ todo)
      by (by rewrite <- app_assoc).
    replace (S (length done)) with (length (done ++ [f]))
      by (rewrite length_app; simpl; lia).
    rewrite (IH (done ++ [f]) rest).
    + by rewrite with_array_twice.
    + lia.
    + rewrite with_array_lookup. f_equal.
      rewrite <- (length_fmap G done), insert_app_r_alt, Nat.sub_diag by lia.
      simpl. rewrite fmap_app, <- app_assoc. simpl.
      unfold np_real, np_imag. by destruct (G f).
Qed.

Lemma loop_rows (G : num → complex) l (freq : list num) (m : mem) rows0 :
  length rows0 = length freq →
  arrays m !! l = Some rows0 →
  for_in (seq 0 (length freq))
    (λ iv, f ← getitem freq iv;
           setitem l iv 0 (np_real (G f)) ;;
           setitem l iv 1 (np_imag (G f))) m
  = Done () (with_array m l (G <$> freq)).
Proof.
  intros Hlen Hl. by apply (loop_from G l [] freq rows0 m).
Qed.

(** *** What the two functions compute *)

(** The local variables the functions set before their loop, and the
    complex index one iteration computes, as functions of the temperature
    and of the frequency of the row. *)
Definition water_theta (t : num) : num := dec 1 0 - dec 300 0 / t.
Definition water_e0 (t : num) : num := dec 7766 2 - dec 1033 1 * water_theta t.
Definition water_e1 (t : num) : num := dec 671 4 * water_e0 t.
Definition water_f1 (t : num) : num :=
  dec 202 1 + dec 146 0 * water_theta t + dec 316 0 * water_theta t * water_theta t.
Definition water_e2 : num := dec 352 2.
Definition water_f2 (t : num) : num := dec 398 1 * water_f1 t.

Definition water_n (t f : num) : complex :=
  let ifGHz := cadd (cpx (dec 0 0)) (cmul j1 (cpx f)) in
  np_sqrt
    (cadd (cadd (cpx water_e2)
                (cdivide (cpx (water_e1 t - water_e2))
                         (csub (cpx (dec 1 0)) (cdivide ifGHz (cpx (water_f2 t))))))
          (cdivide (cpx (water_e0 t - water_e1 t))
                   (csub (cpx (dec 1 0)) (cdivide ifGHz (cpx (water_f1 t)))))).

Definition ice_deltabeta (t : num) : num :=
  np_exp (- dec 9963 3 + dec 372 4 * (t - dec 273 0)).
Definition ice_ebdt (t : num) : num := np_exp (dec 335 0 / t).
Definition ice_betam (t : num) : num :=
  (dec 207 4 / t) * ice_ebdt t / ((ice_ebdt t - dec 1 0) * (ice_ebdt t - dec 1 0)).
Definition ice_theta (t : num) : num := dec 300 0 / t - dec 1 0.
Definition ice_alfa (t : num) : num :=
  (dec 504 5 + dec 62 4 * ice_theta t) * np_exp (- dec 221 1 * ice_theta t).
Definition ice_reps (t : num) : num := dec 31884 4 + dec 91 5 * (t - dec 273 0).
Definition ice_ieps (t f : num) : num :=
  let beta := ice_betam t + dec 116 13 * f * f + ice_deltabeta t in
  ice_alfa t / f + beta * f.

Definition ice_n (t f : num) : complex :=
  np_sqrt (cadd (cpx (ice_reps t)) (cmul j1 (cpx (ice_ieps t f)))).

(** The guards, as the two [if] statements test them. *)
Definition water_t_out (t : num) : bool :=
  (t <? dec 27315 2 - dec 40 0) || gt t (dec 27315 2 + dec 100 0).
Definition ice_t_out (t : num) : bool :=
  (t <? dec 20 0) || gt t (dec 280 0).
Definition f_out (lo hi : num) (x : num) (l : list num) : bool :=
  (foldl minimum x l <? lo) || gt (foldl maximum x l) hi.

(** The outcome of a call as a function of its arguments alone. *)
Definition outcome_of (t_out : bool) (lo hi : num) (n : num → complex)
    (freq : list num) : result :=
  if t_out then Returns AtTemperatureGuard (nan_rows (length freq))
  else match freq with
       | [] => Raises ValueError
       | x :: l =>
           if f_out lo hi x l then Returns AtFrequencyGuard (nan_rows (length freq))
           else Returns AtEnd (n <$> freq)
       end.

Definition water_outcome (freq : list num) (t : num) : result :=
  outcome_of (water_t_out t) (dec 10 0) (dec 1000 0) (water_n t) freq.
Definition ice_outcome (freq : list num) (t : num) : result :=
  outcome_of (ice_t_out t) (dec 1 2) (dec 3000 0) (ice_n t) freq.

(** The store after a call: the new array is the only change. *)
Definition final (m : mem) (nf : nat) (r : result) : outcome mem (exit * loc) :=
  match r with
  | Returns x rows => Done (x, fresh_loc m) (with_array m (fresh_loc m) rows)
  | Raises e => Raised e (with_array m (fresh_loc m) (nan_rows nf))
  end.

Lemma water_run freq t m :
  complex_n_water_liebe93 freq t m
  = final m (length freq) (water_outcome freq t).
Proof.
  unfold complex_n_water_liebe93. rewrite prologue.
  unfold water_outcome, outcome_of, water_t_out, f_out.
  destruct (_ || _); [done|].
  destruct freq as [|x l]; [done|].
  pose proof (loop_rows (water_n t) (fresh_loc m) (x :: l)
    (with_array m (fresh_loc m) (nan_rows (length (x :: l))))
    (nan_rows (length (x :: l)))
    (length_replicate _ _) (with_array_lookup _ _ _)) as Hloop.
  remember (seq 0 (length (x :: l))) as idx.
  unfold mbind at 1, M_bind at 1, np_min at 1, mret at 1, M_ret at 1.
  unfold mbind at 1, M_bind at 1.
  destruct (foldl minimum x l <? dec 10 0); [done|].
  unfold mbind at 1, M_bind at 1, np_max at 1, mret at 1 2, M_ret at 1 2.
  destruct (gt (foldl maximum x l) (dec 1000 0)); [done|].
  cbn [orb]. unfold mbind at 1, M_bind at 1.
  lazymatch goal with
  | |- context [for_in idx ?b ?m1] =>
      replace (for_in idx b m1) with
        (Done (S := mem) () (with_array m1 (fresh_loc m) (water_n t <$> x :: l)))
        by (symmetry; exact Hloop)
  end.
  unfold final, mret, M_ret. by rewrite with_array_twice.
Qed.

Lemma ice_run freq t m :
  complex_n_ice_matzler06 freq t m
  = final m (length freq) (ice_outcome freq t).
Proof.
  unfold complex_n_ice_matzler06. rewrite prologue.
  unfold ice_outcome, outcome_of, ice_t_out, f_out.
  destruct (_ || _); [done|].
  destruct freq as [|x l]; [done|].
  pose proof (loop_rows (ice_n t) (fresh_loc m) (x :: l)
    (with_array m (fresh_loc m) (nan_rows (length (x :: l))))
    (nan_rows (length (x :: l)))
    (length_replicate _ _) (with_array_lookup _ _ _)) as Hloop.
  remember (seq 0 (length (x :: l))) as idx.
  unfold mbind at 1, M_bind at 1, np_min at 1, mret at 1, M_ret at 1.
  unfold mbind at 1, M_bind at 1.
  destruct (foldl minimum x l <? dec 1 2); [done|].
  unfold mbind at 1, M_bind at 1, np_max at 1, mret at 1 2, M_ret at 1 2.
  destruct (gt (foldl maximum x l) (dec 3000 0)); [done|].
  cbn [orb]. unfold mbind at 1, M_bind at 1.
  lazymatch goal with
  | |- context [for_in idx ?b ?m1] =>
      replace (for_in idx b m1) with
        (Done (S := mem) () (with_array m1 (fresh_loc m) (ice_n t <$> x :: l)))
        by (symmetry; exact Hloop)
  end.
  unfold final, mret, M_ret. by rewrite with_array_twice.
Qed.

Lemma call_final c m nf r :
  c m = final m nf r → call c m = Some r.
Proof.
  intros Hc. unfold call. rewrite Hc. destruct r; simpl; [|done].
  by rewrite lookup_insert_eq.
Qed.

Lemma water_call freq t m :
  call (complex_n_water_liebe93 freq t) m = Some (water_outcome freq t).
Proof. eapply call_final, water_run. Qed.

Lemma ice_call freq t m :
  call (complex_n_ice_matzler06 freq t) m = Some (ice_outcome freq t).
Proof. eapply call_final, ice_run. Qed.

End Store.

(** ** The order of the scalars *)

(** The comparisons are those of an order on the scalars that are numbers;
    a comparison with not-a-number is false. *)
Class NumericOrder (N : Numeric) := {
  le_refl a : isnan a = false → (a <=? a)%py = true;
  le_trans a b c : (a <=? b)%py = true → (b <=? c)%py = true → (a <=? c)%py = true;
  le_total a b :
    isnan a = false → isnan b = false → (a <=? b)%py = false → (b <=? a)%py = true;
  not_lt_le a b :
    isnan a = false → isnan b = false → (a <? b)%py = false → (b <=? a)%py = true;
  le_not_lt a b : (a <=? b)%py = true → (b <? a)%py = false;
  lt_le_trans a b c : (a <? b)%py = true → (b <=? c)%py = true → (a <? c)%py = true
}.

Section Order.
Context `{NumericOrder}.
Local Open Scope py_scope.

Lemma minimum_cases a b : minimum a b = a ∨ minimum a b = b.
Proof. unfold minimum. destruct (_ || _); auto. Qed.

Lemma maximum_cases a b : maximum a b = a ∨ maximum a b = b.
Proof. unfold maximum. destruct (_ || _); auto. Qed.

(** The minimum and the maximum numpy returns are entries of the array. *)
Lemma foldl_minimum_elem l : ∀ x, foldl minimum x l ∈ x :: l.
Proof.
  induction l as [|y l IH]; intros x; simpl.
  - apply elem_of_cons; auto.
  - specialize (IH (minimum x y)).
    apply elem_of_cons in IH as [-> | Hin].
    + destruct (minimum_cases x y) as [-> | ->]; rewrite !elem_of_cons; auto.
    + rewrite !elem_of_cons; auto.
Qed.

Lemma foldl_maximum_elem l : ∀ x, foldl maximum x l ∈ x :: l.
Proof.
  induction l as [|y l IH]; intros x; simpl.
  - apply elem_of_cons; auto.
  - specialize (IH (maximum x y)).
    apply elem_of_cons in IH as [-> | Hin].
    + destruct (maximum_cases x y) as [-> | ->]; rewrite !elem_of_cons; auto.
    + rewrite !elem_of_cons; auto.
Qed.

(** On an array without not-a-number the minimum is below every entry and
    the maximum above. *)
Lemma foldl_minimum_le l : ∀ x,
  Forall (λ f, isnan f = false) (x :: l) →
  Forall (λ f, (foldl minimum x l <=? f) = true) (x :: l).
Proof.
  induction l as [|y l IH]; intros x Hn.
  - simpl. repeat constructor. apply le_refl. by inversion Hn.
  - inversion Hn as [|? ? Hx Hn']; subst. inversion Hn' as [|? ? Hy Hl]; subst.
    simpl.
    assert (Hm : isnan (minimum x y) = false)
      by (destruct (minimum_cases x y) as [-> | ->]; done).
    specialize (IH (minimum x y) (Forall_cons_2 _ _ _ Hm Hl)).
    inversion IH as [|? ? Hmin Hrest]; subst.
    assert (Hmx : (minimum x y <=? x) = true ∧ (minimum x y <=? y) = true).
    { unfold minimum. rewrite Hx, orb_false_r.
      destruct (x <=? y) eqn:Hxy.
      - split; [by apply le_refl | done].
      - split; [by apply le_total | by apply le_refl]. }
    destruct Hmx as [Hmx Hmy].
    repeat constructor; [by eapply le_trans | by eapply le_trans | done].
Qed.

Lemma foldl_maximum_le l : ∀ x,
  Forall (λ f, isnan f = false) (x :: l) →
  Forall (λ f, (f <=? foldl maximum x l) = true) (x :: l).
Proof.
  induction l as [|y l IH]; intros x Hn.
  - simpl. repeat constructor. apply le_refl. by inversion Hn.
  - inversion Hn as [|? ? Hx Hn']; subst. inversion Hn' as [|? ? Hy Hl]; subst.
    simpl.
    assert (Hm : isnan (maximum x y) = false)
      by (destruct (maximum_cases x y) as [-> | ->]; done).
    specialize (IH (maximum x y) (Forall_cons_2 _ _ _ Hm Hl)).
    inversion IH as [|? ? Hmax Hrest]; subst.
    assert (Hmx : (x <=? maximum x y) = true ∧ (y <=? maximum x y) = true).
    { unfold maximum. rewrite Hx, orb_false_r.
      destruct (y <=? x) eqn:Hxy.
      - split; [by apply le_refl | done].
      - split; [by apply le_total | by apply le_refl]. }
    destruct Hmx as [Hmx Hmy].
    repeat constructor; [by eapply le_trans | by eapply le_trans | done].
Qed.

(** A grid without not-a-number that the frequency guard lets through lies
    within the bounds, entry by entry. *)
Lemma guard_within lo hi x l :
  isnan lo = false → isnan hi = false →
  Forall (λ f, isnan f = false) (x :: l) →
  f_out lo hi x l = false →
  Forall (λ f, (lo <=? f) = true ∧ (f <=? hi) = true) (x :: l).
Proof.
  intros Hlo Hhi Hn Hout. unfold f_out, gt in Hout.
  apply orb_false_elim in Hout as [Hmin Hmax].
  pose proof (foldl_minimum_elem l x) as Hemin.
  pose proof (foldl_maximum_elem l x) as Hemax.
  rewrite Forall_forall in Hn.
  apply not_lt_le in Hmin; [|by apply Hn|done].
  apply not_lt_le in Hmax; [|done|by apply Hn].
  pose proof (foldl_minimum_le l x) as Hle.
  pose proof (foldl_maximum_le l x) as Hge.
  rewrite !Forall_forall in *.
  intros f Hf. split.
  - eapply le_trans; [exact Hmin|]. by apply Hle.
  - eapply le_trans; [|exact Hmax]. by apply Hge.
Qed.

(** A grid within the bounds passes the frequency guard. *)
Lemma within_guard lo hi x l :
  Forall (λ f, (lo <=? f) = true ∧ (f <=? hi) = true) (x :: l) →
  f_out lo hi x l = false.
Proof.
  intros Hin. rewrite Forall_forall in Hin. unfold f_out, gt.
  destruct (Hin _ (foldl_minimum_elem l x)) as [Hmin _].
  destruct (Hin _ (foldl_maximum_elem l x)) as [_ Hmax].
  by rewrite (le_not_lt _ _ Hmin), (le_not_lt _ _ Hmax).
Qed.

End Order.

(** ** The order of binary64 *)

(** The comparisons of the primitive floats are specified on [spec_float]
    by [SFcompare]; a double is not-a-number when it differs from itself. *)
Module IEEEOrder.
Import SpecFloat.

Definition sf_nan (s : spec_float) : bool :=
  match s with S754_nan => true | _ => false end.

Ltac cmp :=
  repeat match goal with
  | H : context [Pos.compare_cont Eq ?a ?b] |- _ =>
      change (Pos.compare_cont Eq a b) with (Pos.compare a b) in H
  | |- context [Pos.compare_cont Eq ?a ?b] =>
      change (Pos.compare_cont Eq a b) with (Pos.compare a b)
  end;
  repeat match goal with
  | H : context [Z.compare ?a ?b] |- _ => destruct (Z.compare_spec a b); simpl in H
  | |- context [Z.compare ?a ?b] => destruct (Z.compare_spec a b); simpl
  | H : context [Pos.compare ?a ?b] |- _ => destruct (Pos.compare_spec a b); simpl in H
  | |- context [Pos.compare ?a ?b] => destruct (Pos.compare_spec a b); simpl
  end;
  try done; try lia.

Ltac cases3 a b c :=
  unfold SFleb, SFltb, SFcompare;
  destruct a as [[]|[]| |[] ? ?], b as [[]|[]| |[] ? ?], c as [[]|[]| |[] ? ?];
  simpl; try done; intros; cmp.

Ltac cases2 a b :=
  unfold SFleb, SFltb, SFcompare;
  destruct a as [[]|[]| |[] ? ?], b as [[]|[]| |[] ? ?];
  simpl; try done; intros; cmp.

Lemma SFeqb_refl s : SFeqb s s = negb (sf_nan s).
Proof.
  unfold SFeqb, SFcompare. destruct s as [[]|[]| |[] m e]; simpl; try done.
  - change (Pos.compare_cont Eq m m) with (Pos.compare m m).
    by rewrite Z.compare_refl, Pos.compare_refl.
  - change (Pos.compare_cont Eq m m) with (Pos.compare m m).
    by rewrite Z.compare_refl, Pos.compare_refl.
Qed.

Lemma SFleb_refl s : sf_nan s = false → SFleb s s = true.
Proof.
  intros Hs. pose proof (SFeqb_refl s) as He. rewrite Hs in He.
  unfold SFeqb, SFleb in *. by destruct (SFcompare s s) as [[]|].
Qed.

Lemma SFleb_trans a b c : SFleb a b = true → SFleb b c = true → SFleb a c = true.
Proof. revert a b c. intros a b c. cases3 a b c. Qed.

Lemma SFleb_total a b :
  sf_nan a = false → sf_nan b = false → SFleb a b = false → SFleb b a = true.
Proof. cases2 a b. Qed.

Lemma SFltb_SFleb a b :
  sf_nan a = false → sf_nan b = false → SFltb a b = false → SFleb b a = true.
Proof. cases2 a b. Qed.

Lemma SFleb_SFltb a b : SFleb a b = true → SFltb b a = false.
Proof. cases2 a b. Qed.

Lemma SFltb_SFleb_trans a b c :
  SFltb a b = true → SFleb b c = true → SFltb a c = true.
Proof. cases3 a b c. Qed.

Lemma is_nan_spec (x : float) : PrimFloat.is_nan x = sf_nan (Prim2SF x).
Proof.
  unfold PrimFloat.is_nan. rewrite FloatAxioms.eqb_spec, SFeqb_refl. apply negb_involutive.
Qed.

#[export] Instance order (L : IEEE.libm) : NumericOrder (IEEE.numeric L).
Proof.
  split; simpl; intros *; rewrite ?is_nan_spec, ?FloatAxioms.leb_spec, ?FloatAxioms.ltb_spec.
  - apply SFleb_refl.
  - apply SFleb_trans.
  - apply SFleb_total.
  - apply SFltb_SFleb.
  - apply SFleb_SFltb.
  - apply SFltb_SFleb_trans.
Qed.

End IEEEOrder.

(** ** The divisions *)

(** Python raises [ZeroDivisionError] on a division of floats or of
    complex numbers by zero; numpy's scalars return an infinity or
    not-a-number.  With [t] a Python float the divisions by [t] and the
    complex divisions of line 104 are Python's. *)
Section Divisions.
Context (L : IEEE.libm).
Local Open Scope float_scope.

Ltac sf x := destruct (Prim2SF x) as [[]|[]| |[] ? ?] eqn:?.

Ltac to_sf :=
  repeat first
    [ rewrite FloatAxioms.add_spec | rewrite FloatAxioms.sub_spec
    | rewrite FloatAxioms.mul_spec | rewrite FloatAxioms.div_spec
    | rewrite FloatAxioms.opp_spec ].

(** The divisions of line 104, in the order Python evaluates them: true
    when none raises. *)
Definition line_104_defined (t f : float) : bool :=
  let N := IEEE.numeric L in
  let ifGHz := @cadd N (@cpx N (dec 0 0)) (@cmul N (@j1 N) (@cpx N f)) in
  match IEEE.py_c_quot ifGHz (@cpx N (@water_f2 N t)) with
  | None => false
  | Some q2 =>
      match IEEE.py_c_quot (@cpx N (@water_e1 N t - @water_e2 N))
                           (@csub N (@cpx N (dec 1 0)) q2) with
      | None => false
      | Some _ =>
          match IEEE.py_c_quot ifGHz (@cpx N (@water_f1 N t)) with
          | None => false
          | Some q1 =>
              match IEEE.py_c_quot (@cpx N (@water_e0 N t - @water_e1 N t))
                                   (@csub N (@cpx N (dec 1 0)) q1) with
              | None => false
              | Some _ => true
              end
          end
      end
  end.

(** The real part of [0.0 + 1j * f] is zero, or not a number when [f] is
    infinite or not a number. *)
Lemma ifGHz_real (f : float) :
  0 + (0 * f - 1 * 0) = 0 ∨ 0 + (0 * f - 1 * 0) = PrimFloat.nan.
Proof.
  change (1 * 0) with 0.
  sf f; [left | left | right | right | right | left | left];
    apply Prim2SF_inj; to_sf;
    match goal with H : Prim2SF f = _ |- _ => rewrite H end; reflexivity.
Qed.

(** A quotient by the complex number [F + 0j]. *)
Lemma quot_by_float (a_real a_imag F : float) :
  IEEE.py_c_quot (a_real, a_imag) (F, 0) =
    if F =? 0 then None
    else if is_nan F then Some (PrimFloat.nan, PrimFloat.nan)
    else Some ((a_real + a_imag * (0 / F)) / (F + 0 * (0 / F)),
               (a_imag - a_real * (0 / F)) / (F + 0 * (0 / F))).
Proof.
  unfold IEEE.py_c_quot. change (0 <? 0) with false. cbv iota.
  rewrite IEEEOrder.is_nan_spec.
  rewrite ?FloatAxioms.ltb_spec, ?FloatAxioms.leb_spec, ?FloatAxioms.eqb_spec.
  change (Prim2SF 0) with (S754_zero false).
  destruct (Prim2SF F) as [[]|[]| |[] m e] eqn:HF; cbn [SFltb SFcompare];
    rewrite ?FloatAxioms.opp_spec, ?HF; reflexivity.
Qed.

(** The real part of such a quotient, when the dividend has a zero real
    part: subtracted from 1 it leaves 1. *)
Lemma quot_by_float_real (a_real a_imag F : float) :
  a_real = 0 ∨ a_real = PrimFloat.nan →
  (F =? 0) = false →
  let r := (a_real + a_imag * (0 / F)) / (F + 0 * (0 / F)) in
  1 - r = 1 ∨ 1 - r = PrimFloat.nan.
Proof.
  intros Ha HF. rewrite FloatAxioms.eqb_spec in HF. cbv zeta.
  assert (Hr : ∀ x, Prim2SF x = S754_zero false ∨ Prim2SF x = S754_zero true
                    ∨ Prim2SF x = S754_nan →
                    1 - x = 1 ∨ 1 - x = PrimFloat.nan).
  { intros x [Hx | [Hx | Hx]]; [left | left | right];
      apply Prim2SF_inj; rewrite FloatAxioms.sub_spec, Hx; reflexivity. }
  apply Hr. to_sf.
  change (Prim2SF 0) with (S754_zero false) in *.
  destruct Ha as [-> | ->];
    [change (Prim2SF 0) with (S754_zero false)
    | change (Prim2SF PrimFloat.nan) with S754_nan];
    destruct (Prim2SF F) as [[]|[]| |[] m e]; try discriminate HF;
    destruct (Prim2SF a_imag) as [[]|[]| |[] m' e'];
    first [left; reflexivity | right; left; reflexivity | right; right; reflexivity].
Qed.

(** No division by a complex number of real part 1, or not a number,
    raises. *)
Lemma quot_by_one (a : float * float) (b_real b_imag : float) :
  b_real = 1 ∨ b_real = PrimFloat.nan →
  is_Some (IEEE.py_c_quot a (b_real, b_imag)).
Proof.
  intros Hb. unfold IEEE.py_c_quot. destruct a as [a_real a_imag].
  destruct Hb as [-> | ->].
  - change (1 <? 0) with false. cbv iota. change (1 =? 0) with false. cbv iota.
    repeat case_match; by eexists.
  - change (PrimFloat.nan <? 0) with false. cbv iota.
    change (PrimFloat.nan =? 0) with false. cbv iota.
    repeat case_match; by eexists.
Qed.

(** The quotient [ifGHz / F]: it raises exactly when [F] is zero, and no
    division by 1 minus the quotient raises. *)
Lemma quot_ifGHz (f a_imag F : float) :
  match IEEE.py_c_quot (0 + (0 * f - 1 * 0), a_imag) (F, 0) with
  | Some q => (F =? 0) = false
              ∧ ∀ a, is_Some (IEEE.py_c_quot a (1 - q.1, 0 - q.2))
  | None => (F =? 0) = true
  end.
Proof.
  rewrite quot_by_float. destruct (F =? 0) eqn:HF; [done|].
  destruct (is_nan F); (split; [done|]); intros a; apply quot_by_one; cbn [fst].
  - by right.
  - apply quot_by_float_real; [apply ifGHz_real | done].
Qed.

(** Line 104 raises [ZeroDivisionError] exactly when f2 or f1 is zero,
    whatever the frequency. *)
Lemma line_104_zero_division (t f : float) :
  line_104_defined t f
  = negb (@water_f2 (IEEE.numeric L) t =? 0) && negb (@water_f1 (IEEE.numeric L) t =? 0).
Proof.
  unfold line_104_defined. cbv zeta.
  set (F2 := @water_f2 (IEEE.numeric L) t). set (F1 := @water_f1 (IEEE.numeric L) t).
  set (A2 := @water_e1 (IEEE.numeric L) t - @water_e2 (IEEE.numeric L)).
  set (A1 := @water_e0 (IEEE.numeric L) t - @water_e1 (IEEE.numeric L) t).
  unfold cadd, cpx, cmul, csub, j1. cbn [fst snd IEEE.numeric add sub mul dec].
  change (IEEE.literal 0 0) with 0. change (IEEE.literal 1 0) with 1.
  change (@num (IEEE.numeric L)) with float in *.
  pose proof (quot_ifGHz f (0 + (0 * 0 + 1 * f)) F2) as H2.
  pose proof (quot_ifGHz f (0 + (0 * 0 + 1 * f)) F1) as H1.
  set (a := (0 + (0 * f - 1 * 0), 0 + (0 * 0 + 1 * f))) in *.
  destruct (IEEE.py_c_quot a (F2, 0)) as [q2|]; cbv beta iota in H2;
    [|by rewrite H2].
  destruct H2 as [-> Hs2]. destruct (Hs2 (A2, 0)) as [? ->].
  destruct (IEEE.py_c_quot a (F1, 0)) as [q1|]; cbv beta iota in H1;
    [|by rewrite H1].
  destruct H1 as [-> Hs1]. by destruct (Hs1 (A1, 0)) as [? ->].
Qed.

(** After either temperature guard the temperature is not zero: the
    divisions by [t] divide by no zero. *)
Lemma accepted_temperature_nonzero (t : float) :
  (@water_t_out (IEEE.numeric L) t = false → (t =? 0) = false)
  ∧ (@ice_t_out (IEEE.numeric L) t = false → (t =? 0) = false).
Proof.
  unfold water_t_out, ice_t_out, gt.
  cbn [IEEE.numeric lt add sub dec].
  split; intros [Hlo _]%orb_false_iff; revert Hlo;
    rewrite FloatAxioms.ltb_spec, FloatAxioms.eqb_spec;
    by destruct (Prim2SF t) as [[]|[]| |[] ? ?].
Qed.

(** X12: with [t] a Python float, the divisions that can raise
    [ZeroDivisionError] are those by [t] and the complex divisions of line
    104.  Line 104 raises exactly when f2 or f1 is zero, whatever the
    frequency; and once either temperature guard is passed [t] is not
    zero. *)
Theorem zero_division_characterised (t f : float) :
  line_104_defined t f
  = negb (@water_f2 (IEEE.numeric L) t =? 0) && negb (@water_f1 (IEEE.numeric L) t =? 0)
  ∧ (@water_t_out (IEEE.numeric L) t = false → (t =? 0) = false)
  ∧ (@ice_t_out (IEEE.numeric L) t = false → (t =? 0) = false).
Proof.
  split; [apply line_104_zero_division | apply accepted_temperature_nonzero].
Qed.

End Divisions.

(** ** Properties of the guards and of the returned array *)

Definition exited `{Numeric} (c : M (exit * loc)) (m : mem) (x : exit) : Prop :=
  ∃ rows, call c m = Some (Returns x rows).

Definition store_after `{Numeric} {A} (o : outcome mem A) : mem :=
  match o with Done _ m | Raised _ m => m end.

Section Guards.
Context `{Numeric}.
Local Open Scope py_scope.

Lemma guard_exit t_out lo hi n freq :
  t_out = true
  ∨ (∃ v, np_min freq = mret v ∧ (v <? lo) = true)
  ∨ (∃ v, np_max freq = mret v ∧ gt v hi = true) →
  ∃ x, x ≠ AtEnd
       ∧ outcome_of t_out lo hi n freq = Returns x (nan_rows (length freq)).
Proof.
  intros Hg. unfold outcome_of.
  destruct t_out; [by exists AtTemperatureGuard|].
  destruct Hg as [Ht | Hf]; [done|].
  destruct freq as [|x l].
  { destruct Hf as [(v & Hv & _) | (v & Hv & _)]; unfold np_min, np_max in Hv;
      apply (f_equal (λ c, c (Mem ∅ (λ _ _, (nan, nan))))) in Hv; discriminate. }
  assert (Hout : f_out lo hi x l = true).
  { unfold f_out.
    destruct Hf as [(v & Hv & Hlt) | (v & Hv & Hgt)]; unfold np_min, np_max in Hv;
      apply (f_equal (λ c, c (Mem ∅ (λ _ _, (nan, nan))))) in Hv;
      injection Hv as <-.
    - by rewrite Hlt.
    - rewrite Hgt. apply orb_true_r. }
  rewrite Hout. by exists AtFrequencyGuard.
Qed.

Lemma outcome_length t_out lo hi n freq :
  match outcome_of t_out lo hi n freq with
  | Returns _ rows => length rows = length freq
  | Raises _ => freq = []
  end.
Proof.
  unfold outcome_of, nan_rows.
  destruct t_out; [by rewrite length_replicate|].
  destruct freq as [|x l]; [done|].
  destruct (f_out lo hi x l); [by rewrite length_replicate | by rewrite length_fmap].
Qed.

Lemma final_frame m nf r l rows :
  arrays m !! l = Some rows → arrays (store_after (final m nf r)) !! l = Some rows.
Proof.
  intros Hl.
  assert (l ≠ fresh_loc m) by (intros ->; by rewrite fresh_loc_free in Hl).
  destruct r; simpl; by rewrite lookup_insert_ne.
Qed.

(** C1, as the code has it: whenever the temperature is below
    [TEMP_0_C - 40] or above [TEMP_0_C + 100], the two bounds as the code
    computes them, or the minimum of the grid is below 10, or its maximum
    above 1000, [complex_n_water_liebe93] raises nothing and returns, from
    one of its two guards, an array with one row per frequency and
    not-a-number in both components of every row. *)
Theorem water_out_of_range (freq : list num) (t : num) (m : mem) :
  (t <? dec 27315 2 - dec 40 0) = true
  ∨ gt t (dec 27315 2 + dec 100 0) = true
  ∨ (∃ lo, np_min freq = mret lo ∧ (lo <? dec 10 0) = true)
  ∨ (∃ hi, np_max freq = mret hi ∧ gt hi (dec 1000 0) = true) →
  ∃ x, x ≠ AtEnd
       ∧ call (complex_n_water_liebe93 freq t) m
         = Some (Returns x (nan_rows (length freq))).
Proof.
  intros Hg. rewrite water_call. unfold water_outcome.
  destruct (guard_exit (water_t_out t) (dec 10 0) (dec 1000 0) (water_n t) freq)
    as (x & Hx & ->); [|by exists x].
  unfold water_t_out.
  destruct Hg as [-> | [-> | [Hlo | Hhi]]]; auto using orb_true_r.
Qed.

(** C2: whenever the temperature is below 20 or above 280, or the minimum
    of the grid is below 0.01, or its maximum above 3000,
    [complex_n_ice_matzler06] raises nothing and returns, from one of its
    two guards, an array with one row per frequency and not-a-number in
    both components of every row. *)
Theorem ice_out_of_range (freq : list num) (t : num) (m : mem) :
  (t <? dec 20 0) = true
  ∨ gt t (dec 280 0) = true
  ∨ (∃ lo, np_min freq = mret lo ∧ (lo <? dec 1 2) = true)
  ∨ (∃ hi, np_max freq = mret hi ∧ gt hi (dec 3000 0) = true) →
  ∃ x, x ≠ AtEnd
       ∧ call (complex_n_ice_matzler06 freq t) m
         = Some (Returns x (nan_rows (length freq))).
Proof.
  intros Hg. rewrite ice_call. unfold ice_outcome.
  destruct (guard_exit (ice_t_out t) (dec 1 2) (dec 3000 0) (ice_n t) freq)
    as (x & Hx & ->); [|by exists x].
  unfold ice_t_out.
  destruct Hg as [-> | [-> | [Hlo | Hhi]]]; auto using orb_true_r.
Qed.

(** C5: whatever the grid, the temperature and the store, the array either
    function returns has as many rows as the grid has frequencies; and a
    call returns an array unless the grid is empty. *)
Theorem rows_match_grid (freq : list num) (t : num) (m : mem) :
  match call (complex_n_water_liebe93 freq t) m with
  | Some (Returns _ rows) => length rows = length freq
  | Some (Raises _) => freq = []
  | None => False
  end
  ∧ match call (complex_n_ice_matzler06 freq t) m with
    | Some (Returns _ rows) => length rows = length freq
    | Some (Raises _) => freq = []
    | None => False
    end.
Proof.
  rewrite water_call, ice_call. split; apply outcome_length.
Qed.

(** C6, as the code has it: on an empty grid and a temperature outside
    its temperature range, each function returns an empty array and raises
    nothing; it is the temperature guard that returns it. *)
Theorem empty_grid_out_of_range (tw ti : num) (m : mem) :
  (tw <? dec 27315 2 - dec 40 0) || gt tw (dec 27315 2 + dec 100 0) = true →
  (ti <? dec 20 0) || gt ti (dec 280 0) = true →
  call (complex_n_water_liebe93 [] tw) m = Some (Returns AtTemperatureGuard [])
  ∧ call (complex_n_ice_matzler06 [] ti) m = Some (Returns AtTemperatureGuard []).
Proof.
  intros Hw Hi. rewrite water_call, ice_call.
  unfold water_outcome, ice_outcome, outcome_of, water_t_out, ice_t_out.
  by rewrite Hw, Hi.
Qed.

(** C9: what a call returns or raises is a function of the grid and the
    temperature alone: it is the same from any two stores, whatever arrays
    they hold and whatever their free memory holds, and so the same when
    the call is repeated; and a call changes no array of the store it
    starts from. *)
Theorem calls_depend_on_arguments_only (freq : list num) (t : num) (m1 m2 : mem) :
  call (complex_n_water_liebe93 freq t) m1 = call (complex_n_water_liebe93 freq t) m2
  ∧ call (complex_n_ice_matzler06 freq t) m1 = call (complex_n_ice_matzler06 freq t) m2
  ∧ call (complex_n_water_liebe93 freq t)
      (store_after (complex_n_water_liebe93 freq t m1))
    = call (complex_n_water_liebe93 freq t) m1
  ∧ call (complex_n_ice_matzler06 freq t)
      (store_after (complex_n_ice_matzler06 freq t m1))
    = call (complex_n_ice_matzler06 freq t) m1
  ∧ ∀ l rows, arrays m1 !! l = Some rows →
      arrays (store_after (complex_n_water_liebe93 freq t m1)) !! l = Some rows
      ∧ arrays (store_after (complex_n_ice_matzler06 freq t m1)) !! l = Some rows.
Proof.
  rewrite !water_call, !ice_call. repeat split; try done.
  - rewrite water_run. by apply final_frame.
  - rewrite ice_run. by apply final_frame.
Qed.

End Guards.

(** ** Properties of the computed rows *)

Section Within.
Context `{NumericOrder}.
Local Open Scope py_scope.

(** A non-empty grid within the bounds, at a temperature the first guard
    accepts, reaches the end of the function, in any instance. *)
Lemma outcome_within (t_out : bool) (lo hi : num) (n : num → complex)
    (freq : list num) :
  t_out = false → freq ≠ [] →
  Forall (λ f, (lo <=? f) = true ∧ (f <=? hi) = true) freq →
  outcome_of t_out lo hi n freq = Returns AtEnd (n <$> freq).
Proof.
  intros -> Hne Hin. unfold outcome_of.
  destruct freq as [|x l]; [done|].
  by rewrite within_guard.
Qed.

End Within.

(** ** On binary64 *)

Section Doubles.
Local Open Scope float_scope.

(** The decimal literals of the model are the doubles Python reads. *)
Example literals_are_doubles :
  IEEE.literal 27315 2 = 273.15 ∧ IEEE.literal 1 2 = 0.01
  ∧ IEEE.literal 116 13 = 1.16e-11 ∧ IEEE.literal 7766 2 = 77.66
  ∧ IEEE.literal 31884 4 = 3.1884 ∧ IEEE.literal 3000 0 = 3000.
Proof. repeat split; reflexivity. Qed.

(** The lower temperature bound of the liquid-water guard is
    [TEMP_0_C - 40] as binary64 computes it, one unit in the last place
    below the double that the decimal 233.15 denotes. *)
Example water_lower_bound :
  273.15 - 40 = 233.14999999999998 ∧ 233.15 = 233.15000000000001
  ∧ next_up (273.15 - 40) = 233.15 ∧ 273.15 + 100 = 373.15.
Proof. repeat split; reflexivity. Qed.

(** The locals of the two functions at the temperatures the specification
    quotes: e0 and f1 at 300 K, reps at 273 K. *)
Example locals_at_quoted_temperatures (L : IEEE.libm) :
  @water_e0 (IEEE.numeric L) 300 = 77.66
  ∧ @water_f1 (IEEE.numeric L) 300 = 20.2
  ∧ @ice_reps (IEEE.numeric L) 273 = 3.1884.
Proof. repeat split; reflexivity. Qed.

(** At the bounds of the temperature range and at 300 K the relaxation
    frequencies are not zero: line 104 raises at no frequency. *)
Example line_104_defined_at_bounds (L : IEEE.libm) (f : float) :
  line_104_defined L (273.15 - 40) f = true
  ∧ line_104_defined L 273.15 f = true
  ∧ line_104_defined L 300 f = true
  ∧ line_104_defined L (273.15 + 100) f = true.
Proof. rewrite !line_104_zero_division. repeat split; reflexivity. Qed.

(** No quotient by the zero 0.0 is a finite number: it is an infinity, or
    not-a-number when the dividend is zero or not a number. *)
Lemma div_zero_not_finite (a : float) : is_finite (a / 0) = false.
Proof.
  assert (Hq : a / 0 = infinity ∨ a / 0 = neg_infinity ∨ a / 0 = PrimFloat.nan).
  { destruct (Prim2SF a) as [[]|[]| |[] m e] eqn:Ha;
      [right; right | right; right | right; left | left | right; right
      | right; left | left];
      apply Prim2SF_inj; rewrite FloatAxioms.div_spec, Ha; reflexivity. }
  by destruct Hq as [-> | [-> | ->]].
Qed.

Lemma water_out_of_range_witness :
  (5 <? 10) = true
  ∧ ∀ L, ∃ x, x ≠ AtEnd
       ∧ call (@complex_n_water_liebe93 (IEEE.numeric L) [5; 100] 300) (IEEE.mem0 L)
         = Some (Returns x (nan_rows 2)).
Proof.
  split; [reflexivity|]. intros L.
  apply (@water_out_of_range (IEEE.numeric L) [5; 100] 300 (IEEE.mem0 L)).
  right; right; left. exists 5. split; reflexivity.
Defined.

(** The bound 233.15 is not the code's: at the double just below it the
    guard lets the temperature through, no division of line 104 raises, the
    loop runs, and the row is what [np.sqrt] makes of a finite
    permittivity. *)
Lemma water_decimal_bound_counterexample :
  (273.15 - 40 <? 233.15) = true
  ∧ (∀ L, line_104_defined L (273.15 - 40) 100 = true)
  ∧ (∀ L, call (@complex_n_water_liebe93 (IEEE.numeric L) [100] (273.15 - 40))
               (IEEE.mem0 L)
          = Some (Returns AtEnd [@water_n (IEEE.numeric L) (273.15 - 40) 100]))
  ∧ (∀ L, IEEE.csqrt_finite L →
          is_nan (@water_n (IEEE.numeric L) (273.15 - 40) 100).1 = false
          ∧ is_nan (@water_n (IEEE.numeric L) (273.15 - 40) 100).2 = false).
Proof.
  split; [reflexivity|]. split; [|split].
  - intros L. reflexivity.
  - intros L. rewrite water_call. reflexivity.
  - intros L HL. vm_compute. by apply HL.
Qed.

Lemma ice_out_of_range_witness :
  (10 <? 20) = true
  ∧ ∀ L, ∃ x, x ≠ AtEnd
       ∧ call (@complex_n_ice_matzler06 (IEEE.numeric L) [100; 5000] 10) (IEEE.mem0 L)
         = Some (Returns x (nan_rows 2)).
Proof.
  split; [reflexivity|]. intros L.
  apply (@ice_out_of_range (IEEE.numeric L) [100; 5000] 10 (IEEE.mem0 L)).
  left. reflexivity.
Defined.

Lemma empty_grid_out_of_range_witness :
  (200 <? 273.15 - 40) = true
  ∧ ∀ L, call (@complex_n_water_liebe93 (IEEE.numeric L) [] 200) (IEEE.mem0 L)
           = Some (Returns AtTemperatureGuard [])
         ∧ call (@complex_n_ice_matzler06 (IEEE.numeric L) [] 10) (IEEE.mem0 L)
           = Some (Returns AtTemperatureGuard []).
Proof.
  split; [reflexivity|]. intros L.
  apply (@empty_grid_out_of_range (IEEE.numeric L) 200 10 (IEEE.mem0 L)); reflexivity.
Defined.

(** On an empty grid and a temperature within the range, [np.min] raises. *)
Lemma empty_grid_counterexample :
  (∀ L, call (@complex_n_water_liebe93 (IEEE.numeric L) [] 300) (IEEE.mem0 L)
        = Some (Raises ValueError))
  ∧ (∀ L, call (@complex_n_ice_matzler06 (IEEE.numeric L) [] 100) (IEEE.mem0 L)
          = Some (Raises ValueError)).
Proof. split; intros L; [rewrite water_call | rewrite ice_call]; reflexivity. Qed.

(** C10, as the code has it: on a grid without not-a-number, whenever the
    loop of [complex_n_ice_matzler06] is reached every frequency is at
    least 0.01, hence strictly positive: [alfa / f] divides by no zero. *)
Theorem ice_divisor_positive (L : IEEE.libm) (freq : list float) (t : float)
    (m : @mem (IEEE.numeric L)) :
  Forall (λ f, is_nan f = false) freq →
  exited (@complex_n_ice_matzler06 (IEEE.numeric L) freq t) m AtEnd →
  Forall (λ f, (0.01 <=? f) = true ∧ (0 <? f) = true) freq.
Proof.
  intros Hn [rows Hcall]. rewrite ice_call in Hcall.
  injection Hcall as Hout. unfold ice_outcome, outcome_of in Hout.
  destruct (@ice_t_out (IEEE.numeric L) t); [done|].
  destruct freq as [|x l]; [done|].
  destruct (@f_out (IEEE.numeric L) _ _ x l) eqn:Hf; [done|].
  apply (guard_within (H := IEEEOrder.order L)) in Hf; [|done..].
  eapply Forall_impl; [exact Hf|].
  intros f [Hlo _]. split; [exact Hlo|].
  by apply (lt_le_trans (NumericOrder := IEEEOrder.order L) 0 0.01 f).
Qed.

Lemma ice_divisor_positive_witness :
  Forall (λ f, is_nan f = false) [0.01; 100; 3000]
  ∧ ∀ L : IEEE.libm,
      Forall (λ f, (0.01 <=? f) = true ∧ (0 <? f) = true) [0.01; 100; 3000].
Proof.
  split; [repeat constructor|]. intros L.
  apply (ice_divisor_positive L [0.01; 100; 3000] 273 (IEEE.mem0 L)).
  - repeat constructor.
  - eexists. rewrite ice_call. reflexivity.
Defined.

(** With a not-a-number in the grid the guard lets a zero frequency
    through: the loop runs over both entries, the second frequency is not
    above zero, and [alfa / f] is there a division by zero, whose quotient
    is no finite number. *)
Lemma ice_nan_grid_counterexample :
  (∀ L, call (@complex_n_ice_matzler06 (IEEE.numeric L) [PrimFloat.nan; 0] 100)
             (IEEE.mem0 L)
        = Some (Returns AtEnd
                  (@ice_n (IEEE.numeric L) 100 <$> [PrimFloat.nan; 0])))
  ∧ (0 <? 0) = false
  ∧ (∀ L, is_finite (@ice_alfa (IEEE.numeric L) 100 / 0) = false).
Proof.
  split; [|split].
  - intros L. rewrite ice_call. reflexivity.
  - reflexivity.
  - intros L. apply div_zero_not_finite.
Qed.




End Doubles.

(** ** Further properties: rows and exceptions *)

Section Rows.
Context `{Numeric}.
Local Open Scope py_scope.

Lemma outcome_row t_out lo hi (n : num → complex) freq i f :
  freq !! i = Some f →
  match outcome_of t_out lo hi n freq with
  | Returns AtEnd rows => rows !! i = Some (n f)
  | Returns _ rows => rows !! i = Some (nan, nan)
  | Raises _ => True
  end.
Proof.
  intros Hi. pose proof (lookup_lt_Some _ _ _ Hi) as Hlt.
  unfold outcome_of, nan_rows.
  destruct t_out; [by apply lookup_replicate_2|].
  destruct freq as [|x l]; [done|].
  destruct (f_out lo hi x l); [by apply lookup_replicate_2|].
  by rewrite list_lookup_fmap, Hi.
Qed.

(** X1: the rows are aligned with the grid.  Row [i] of the array either
    function returns holds, after the loop, the real and the imaginary part
    of the index computed from the temperature and [freq[i]] alone, and
    not-a-number twice when a guard returned. *)
Theorem rows_aligned_with_grid (freq : list num) (t : num) (m : mem) (i : nat)
    (f : num) :
  freq !! i = Some f →
  match call (complex_n_water_liebe93 freq t) m with
  | Some (Returns AtEnd rows) => rows !! i = Some (water_n t f)
  | Some (Returns _ rows) => rows !! i = Some (nan, nan)
  | _ => True
  end
  ∧ match call (complex_n_ice_matzler06 freq t) m with
    | Some (Returns AtEnd rows) => rows !! i = Some (ice_n t f)
    | Some (Returns _ rows) => rows !! i = Some (nan, nan)
    | _ => True
    end.
Proof.
  intros Hi. rewrite water_call, ice_call.
  split; by apply outcome_row.
Qed.

Lemma outcome_raises t_out lo hi (n : num → complex) freq e :
  outcome_of t_out lo hi n freq = Raises e
  ↔ e = ValueError ∧ freq = [] ∧ t_out = false.
Proof.
  unfold outcome_of. destruct t_out.
  { split; [done | by intros (_ & _ & ?)]. }
  destruct freq as [|x l].
  { split; [by intros [= <-] | by intros (-> & _ & _)]. }
  destruct (f_out lo hi x l); split; try done; by intros (_ & ? & _).
Qed.

(** X2: the only exception either function raises is the [ValueError] of
    [np.min], and it raises it exactly on an empty grid at a temperature the
    temperature guard accepts; no index of the loop is ever out of bounds. *)
Theorem raises_only_on_empty_grid (freq : list num) (t : num) (m : mem) (e : exn) :
  (call (complex_n_water_liebe93 freq t) m = Some (Raises e)
   ↔ e = ValueError ∧ freq = []
     ∧ (t <? dec 27315 2 - dec 40 0) || gt t (dec 27315 2 + dec 100 0) = false)
  ∧ (call (complex_n_ice_matzler06 freq t) m = Some (Raises e)
     ↔ e = ValueError ∧ freq = []
       ∧ (t <? dec 20 0) || gt t (dec 280 0) = false).
Proof.
  rewrite water_call, ice_call. unfold water_outcome, ice_outcome. split.
  - split.
    + intros [= Ho]. apply outcome_raises in Ho. exact Ho.
    + intros Hc. f_equal. apply outcome_raises. exact Hc.
  - split.
    + intros [= Ho]. apply outcome_raises in Ho. exact Ho.
    + intros Hc. f_equal. apply outcome_raises. exact Hc.
Qed.

End Rows.

(** ** Further properties: not-a-number and the guards *)

(** A comparison with not-a-number is false. *)
Class NumericNan (N : Numeric) := {
  lt_nan_l a b : isnan a = true → (a <? b)%py = false;
  lt_nan_r a b : isnan b = true → (a <? b)%py = false;
  le_nan_l a b : isnan a = true → (a <=? b)%py = false;
  le_nan_r a b : isnan b = true → (a <=? b)%py = false
}.

#[export] Instance ieee_nan (L : IEEE.libm) : NumericNan (IEEE.numeric L).
Proof.
  split; simpl; intros a b;
    rewrite IEEEOrder.is_nan_spec, ?FloatAxioms.ltb_spec, ?FloatAxioms.leb_spec;
    unfold SpecFloat.SFltb, SpecFloat.SFleb, SpecFloat.SFcompare;
    by destruct (Prim2SF a), (Prim2SF b).
Qed.

Section NanGuards.
Context `{NumericNan}.
Local Open Scope py_scope.

Lemma foldl_minimum_nan_acc l : ∀ x, isnan x = true → isnan (foldl minimum x l) = true.
Proof.
  induction l as [|y l IH]; intros x Hx; [done|]. simpl. apply IH.
  unfold minimum. by rewrite Hx, orb_true_r.
Qed.

Lemma foldl_maximum_nan_acc l : ∀ x, isnan x = true → isnan (foldl maximum x l) = true.
Proof.
  induction l as [|y l IH]; intros x Hx; [done|]. simpl. apply IH.
  unfold maximum. by rewrite Hx, orb_true_r.
Qed.

(** numpy's minimum and maximum of an array that holds a not-a-number are
    not-a-number. *)
Lemma foldl_minimum_nan l : ∀ x f,
  f ∈ x :: l → isnan f = true → isnan (foldl minimum x l) = true.
Proof.
  induction l as [|y l IH]; intros x f Hf Hn.
  - apply list_elem_of_singleton in Hf as ->. done.
  - simpl. destruct (isnan x) eqn:Hx.
    { apply foldl_minimum_nan_acc. unfold minimum. by rewrite Hx, orb_true_r. }
    apply elem_of_cons in Hf as [-> | Hf]; [congruence|].
    apply elem_of_cons in Hf as [-> | Hf].
    + apply foldl_minimum_nan_acc. unfold minimum.
      by rewrite (le_nan_r _ _ Hn), Hx.
    + apply (IH _ f); [|done]. apply elem_of_cons. by right.
Qed.

Lemma foldl_maximum_nan l : ∀ x f,
  f ∈ x :: l → isnan f = true → isnan (foldl maximum x l) = true.
Proof.
  induction l as [|y l IH]; intros x f Hf Hn.
  - apply list_elem_of_singleton in Hf as ->. done.
  - simpl. destruct (isnan x) eqn:Hx.
    { apply foldl_maximum_nan_acc. unfold maximum. by rewrite Hx, orb_true_r. }
    apply elem_of_cons in Hf as [-> | Hf]; [congruence|].
    apply elem_of_cons in Hf as [-> | Hf].
    + apply foldl_maximum_nan_acc. unfold maximum.
      by rewrite (le_nan_l _ _ Hn), Hx.
    + apply (IH _ f); [|done]. apply elem_of_cons. by right.
Qed.

End NanGuards.

Section NanEntries.
Context `{NumericNan}.
Local Open Scope py_scope.

Lemma nan_entry_f_out lo hi x l f :
  f ∈ x :: l → isnan f = true → f_out lo hi x l = false.
Proof.
  intros Hf Hn. unfold f_out, gt.
  rewrite lt_nan_l by (by eapply foldl_minimum_nan).
  by rewrite lt_nan_r by (by eapply foldl_maximum_nan).
Qed.

Lemma nan_entry_outcome t_out lo hi (n : num → complex) freq f :
  f ∈ freq → isnan f = true → t_out = false →
  outcome_of t_out lo hi n freq = Returns AtEnd (n <$> freq).
Proof.
  intros Hf Hn ->. unfold outcome_of.
  destruct freq as [|x l]; [by apply elem_of_nil in Hf|].
  by rewrite (nan_entry_f_out lo hi x l f).
Qed.

(** X4: a grid that holds a not-a-number is never rejected by the frequency
    guard, whatever its other entries: at a temperature the temperature
    guard accepts, both functions run their loop over the whole grid. *)
Theorem nan_entry_passes_frequency_guard (freq : list num) (tw ti : num) (m : mem)
    (f : num) :
  f ∈ freq → isnan f = true →
  (tw <? dec 27315 2 - dec 40 0) || gt tw (dec 27315 2 + dec 100 0) = false →
  (ti <? dec 20 0) || gt ti (dec 280 0) = false →
  call (complex_n_water_liebe93 freq tw) m
    = Some (Returns AtEnd (water_n tw <$> freq))
  ∧ call (complex_n_ice_matzler06 freq ti) m
    = Some (Returns AtEnd (ice_n ti <$> freq)).
Proof.
  intros Hf Hn Hw Hi. rewrite water_call, ice_call.
  unfold water_outcome, ice_outcome.
  split; f_equal; by eapply nan_entry_outcome.
Qed.

End NanEntries.

Section NanTemperature.
Context `{NumericNan} `{!NumericOrder N1}.
Local Open Scope py_scope.

(** X5: a temperature that is not-a-number passes the temperature guard of
    both functions: on a non-empty grid within the frequency range the loop
    runs, and no guard returns. *)
Theorem nan_temperature_passes (fw fi : list num) (t : num) (m : mem) :
  isnan t = true →
  fw ≠ [] → Forall (λ f, (dec 10 0 <=? f) = true ∧ (f <=? dec 1000 0) = true) fw →
  fi ≠ [] → Forall (λ f, (dec 1 2 <=? f) = true ∧ (f <=? dec 3000 0) = true) fi →
  call (complex_n_water_liebe93 fw t) m
    = Some (Returns AtEnd (water_n t <$> fw))
  ∧ call (complex_n_ice_matzler06 fi t) m
    = Some (Returns AtEnd (ice_n t <$> fi)).
Proof.
  intros Hn Hfw Hw Hfi Hi. rewrite water_call, ice_call.
  unfold water_outcome, ice_outcome.
  split; f_equal; apply outcome_within; try done.
  - unfold water_t_out, gt. by rewrite lt_nan_l, lt_nan_r.
  - unfold ice_t_out, gt. by rewrite lt_nan_l, lt_nan_r.
Qed.

End NanTemperature.

(** ** Further properties: what the guards accept *)

Section Accept.
Context `{NumericOrder}.
Local Open Scope py_scope.

Lemma t_guard_iff (lo hi t : num) :
  isnan lo = false → isnan hi = false → isnan t = false →
  (t <? lo) || gt t hi = false ↔ (lo <=? t) = true ∧ (t <=? hi) = true.
Proof.
  intros Hlo Hhi Ht. unfold gt. rewrite orb_false_iff. split.
  - intros [H1 H2]. split; by apply not_lt_le.
  - intros [H1 H2]. split; by apply le_not_lt.
Qed.

Lemma outcome_at_end_iff (t_out : bool) (lo hi : num) (n : num → complex)
    (freq : list num) :
  isnan lo = false → isnan hi = false →
  Forall (λ f, isnan f = false) freq →
  (∃ rows, outcome_of t_out lo hi n freq = Returns AtEnd rows)
  ↔ t_out = false ∧ freq ≠ []
    ∧ Forall (λ f, (lo <=? f) = true ∧ (f <=? hi) = true) freq.
Proof.
  intros Hlo Hhi Hn. split.
  - intros [rows Hout]. unfold outcome_of in Hout.
    destruct t_out; [done|]. destruct freq as [|x l]; [done|].
    destruct (f_out lo hi x l) eqn:Hf; [done|].
    repeat split; [done|]. by apply guard_within.
  - intros (Ht & Hne & Hin). eexists. by apply outcome_within.
Qed.

Lemma outcome_at_end_rows (t_out : bool) (lo hi : num) (n : num → complex)
    (freq : list num) (rows : list row) :
  outcome_of t_out lo hi n freq = Returns AtEnd rows → rows = n <$> freq.
Proof.
  unfold outcome_of. destruct t_out; [done|].
  destruct freq as [|x l]; [done|].
  destruct (f_out lo hi x l); [done|]. by intros [= <-].
Qed.

Lemma outcome_concat (t_out : bool) (lo hi : num) (n : num → complex)
    (f1 f2 : list num) :
  isnan lo = false → isnan hi = false →
  Forall (λ f, isnan f = false) (f1 ++ f2) → f1 ≠ [] → f2 ≠ [] →
  ((∃ rows, outcome_of t_out lo hi n (f1 ++ f2) = Returns AtEnd rows)
   ↔ (∃ r1, outcome_of t_out lo hi n f1 = Returns AtEnd r1)
     ∧ (∃ r2, outcome_of t_out lo hi n f2 = Returns AtEnd r2))
  ∧ ∀ r1 r2,
      outcome_of t_out lo hi n f1 = Returns AtEnd r1 →
      outcome_of t_out lo hi n f2 = Returns AtEnd r2 →
      outcome_of t_out lo hi n (f1 ++ f2) = Returns AtEnd (r1 ++ r2).
Proof.
  intros Hlo Hhi Hn H1 H2.
  pose proof Hn as Hn'. apply Forall_app in Hn' as [Hn1 Hn2].
  assert (H12 : f1 ++ f2 ≠ []) by by destruct f1.
  split.
  - rewrite !outcome_at_end_iff by done. rewrite Forall_app. tauto.
  - intros r1 r2 Ha Hb.
    rewrite (outcome_at_end_rows _ _ _ _ _ _ Ha).
    rewrite (outcome_at_end_rows _ _ _ _ _ _ Hb).
    apply (ex_intro (λ r, _ = Returns AtEnd r)) in Ha, Hb.
    apply outcome_at_end_iff in Ha as (Ht & _ & Hin1); [|done..].
    apply outcome_at_end_iff in Hb as (_ & _ & Hin2); [|done..].
    rewrite <- fmap_app. apply outcome_within; [done..|].
    by apply Forall_app.
Qed.

End Accept.

Section AcceptDoubles.
Context (L : IEEE.libm).
Local Open Scope float_scope.

Local Instance accept_order : NumericOrder (IEEE.numeric L) := IEEEOrder.order L.

(** X6: on a temperature and a grid without not-a-number, the loop of
    [complex_n_water_liebe93] is reached exactly when the grid is not empty,
    the temperature lies between [TEMP_0_C - 40] and [TEMP_0_C + 100], bounds
    included, and every frequency lies between 10 and 1000, bounds
    included. *)
Theorem water_loop_reached_iff (freq : list float) (t : float)
    (m : @mem (IEEE.numeric L)) :
  is_nan t = false → Forall (λ f, is_nan f = false) freq →
  exited (@complex_n_water_liebe93 (IEEE.numeric L) freq t) m AtEnd
  ↔ freq ≠ [] ∧ (273.15 - 40 <=? t) = true ∧ (t <=? 273.15 + 100) = true
    ∧ Forall (λ f, (10 <=? f) = true ∧ (f <=? 1000) = true) freq.
Proof.
  intros Ht Hn. unfold exited. rewrite water_call.
  transitivity (∃ rows, @water_outcome (IEEE.numeric L) freq t = Returns AtEnd rows).
  { split; intros [rows Hr]; exists rows; [by injection Hr | by rewrite Hr]. }
  unfold water_outcome.
  rewrite (outcome_at_end_iff (N1 := IEEE.numeric L)) by done.
  unfold water_t_out.
  rewrite (t_guard_iff (N1 := IEEE.numeric L)) by done.
  tauto.
Qed.

(** X7: on a temperature and a grid without not-a-number, the loop of
    [complex_n_ice_matzler06] is reached exactly when the grid is not empty,
    the temperature lies between 20 and 280, bounds included, and every
    frequency lies between 0.01 and 3000, bounds included. *)
Theorem ice_loop_reached_iff (freq : list float) (t : float)
    (m : @mem (IEEE.numeric L)) :
  is_nan t = false → Forall (λ f, is_nan f = false) freq →
  exited (@complex_n_ice_matzler06 (IEEE.numeric L) freq t) m AtEnd
  ↔ freq ≠ [] ∧ (20 <=? t) = true ∧ (t <=? 280) = true
    ∧ Forall (λ f, (0.01 <=? f) = true ∧ (f <=? 3000) = true) freq.
Proof.
  intros Ht Hn. unfold exited. rewrite ice_call.
  transitivity (∃ rows, @ice_outcome (IEEE.numeric L) freq t = Returns AtEnd rows).
  { split; intros [rows Hr]; exists rows; [by injection Hr | by rewrite Hr]. }
  unfold ice_outcome.
  rewrite (outcome_at_end_iff (N1 := IEEE.numeric L)) by done.
  unfold ice_t_out.
  rewrite (t_guard_iff (N1 := IEEE.numeric L)) by done.
  tauto.
Qed.

Lemma exited_outcome (c : @M (IEEE.numeric L) (exit * loc))
    (m : @mem (IEEE.numeric L)) (o : @result (IEEE.numeric L)) :
  call c m = Some o →
  exited c m AtEnd ↔ ∃ rows, o = Returns AtEnd rows.
Proof.
  intros Hc. unfold exited. rewrite Hc.
  split; intros [rows Hr]; exists rows; [by injection Hr | by rewrite Hr].
Qed.

(** X8: a grid without not-a-number may be cut in two non-empty parts.
    The loop of [complex_n_water_liebe93] is reached on the whole grid
    exactly when it is reached on the first part and on the second; and
    when the calls on the parts return after the loop, the call on the
    whole returns after the loop the rows of the first part followed by
    those of the second. *)
Theorem water_rows_concatenate (f1 f2 : list float) (t : float)
    (m : @mem (IEEE.numeric L)) :
  Forall (λ f, is_nan f = false) (f1 ++ f2) → f1 ≠ [] → f2 ≠ [] →
  (exited (@complex_n_water_liebe93 (IEEE.numeric L) (f1 ++ f2) t) m AtEnd
   ↔ exited (@complex_n_water_liebe93 (IEEE.numeric L) f1 t) m AtEnd
     ∧ exited (@complex_n_water_liebe93 (IEEE.numeric L) f2 t) m AtEnd)
  ∧ ∀ r1 r2,
      call (@complex_n_water_liebe93 (IEEE.numeric L) f1 t) m
        = Some (Returns AtEnd r1) →
      call (@complex_n_water_liebe93 (IEEE.numeric L) f2 t) m
        = Some (Returns AtEnd r2) →
      call (@complex_n_water_liebe93 (IEEE.numeric L) (f1 ++ f2) t) m
        = Some (Returns AtEnd (r1 ++ r2)).
Proof.
  intros Hn H1 H2.
  destruct (outcome_concat (N1 := IEEE.numeric L) (@water_t_out (IEEE.numeric L) t)
              10 1000 (@water_n (IEEE.numeric L) t) f1 f2) as [Hiff Hrows];
    try done.
  split.
  - rewrite !(exited_outcome _ _ _ (water_call _ _ _)). exact Hiff.
  - intros r1 r2. rewrite !water_call. intros [= Ha] [= Hb]. f_equal.
    by apply Hrows.
Qed.

(** X9: the same for [complex_n_ice_matzler06]. *)
Theorem ice_rows_concatenate (f1 f2 : list float) (t : float)
    (m : @mem (IEEE.numeric L)) :
  Forall (λ f, is_nan f = false) (f1 ++ f2) → f1 ≠ [] → f2 ≠ [] →
  (exited (@complex_n_ice_matzler06 (IEEE.numeric L) (f1 ++ f2) t) m AtEnd
   ↔ exited (@complex_n_ice_matzler06 (IEEE.numeric L) f1 t) m AtEnd
     ∧ exited (@complex_n_ice_matzler06 (IEEE.numeric L) f2 t) m AtEnd)
  ∧ ∀ r1 r2,
      call (@complex_n_ice_matzler06 (IEEE.numeric L) f1 t) m
        = Some (Returns AtEnd r1) →
      call (@complex_n_ice_matzler06 (IEEE.numeric L) f2 t) m
        = Some (Returns AtEnd r2) →
      call (@complex_n_ice_matzler06 (IEEE.numeric L) (f1 ++ f2) t) m
        = Some (Returns AtEnd (r1 ++ r2)).
Proof.
  intros Hn H1 H2.
  destruct (outcome_concat (N1 := IEEE.numeric L) (@ice_t_out (IEEE.numeric L) t)
              0.01 3000 (@ice_n (IEEE.numeric L) t) f1 f2) as [Hiff Hrows];
    try done.
  split.
  - rewrite !(exited_outcome _ _ _ (ice_call _ _ _)). exact Hiff.
  - intros r1 r2. rewrite !ice_call. intros [= Ha] [= Hb]. f_equal.
    by apply Hrows.
Qed.

End AcceptDoubles.

(** ** The further properties at concrete inputs *)

Section Inputs.
Local Open Scope float_scope.

Lemma rows_aligned_with_grid_witness :
  [100; 10; 1000] !! 1%nat = Some 10
  ∧ ∀ L,
      match call (@complex_n_water_liebe93 (IEEE.numeric L) [100; 10; 1000] 300)
                 (IEEE.mem0 L) with
      | Some (Returns AtEnd rows) =>
          rows !! 1%nat = Some (@water_n (IEEE.numeric L) 300 10)
      | Some (Returns _ rows) => rows !! 1%nat = Some (PrimFloat.nan, PrimFloat.nan)
      | _ => True
      end
      ∧ match call (@complex_n_ice_matzler06 (IEEE.numeric L) [100; 10; 1000] 300)
                   (IEEE.mem0 L) with
        | Some (Returns AtEnd rows) =>
            rows !! 1%nat = Some (@ice_n (IEEE.numeric L) 300 10)
        | Some (Returns _ rows) => rows !! 1%nat = Some (PrimFloat.nan, PrimFloat.nan)
        | _ => True
        end.
Proof.
  split; [reflexivity|]. intros L.
  apply (@rows_aligned_with_grid (IEEE.numeric L) [100; 10; 1000] 300
           (IEEE.mem0 L) 1%nat 10).
  reflexivity.
Defined.

Lemma nan_entry_passes_frequency_guard_witness :
  is_nan PrimFloat.nan = true
  ∧ ∀ L,
      call (@complex_n_water_liebe93 (IEEE.numeric L) [5; PrimFloat.nan; 5000] 300)
           (IEEE.mem0 L)
        = Some (Returns AtEnd
                  (@water_n (IEEE.numeric L) 300 <$> [5; PrimFloat.nan; 5000]))
      ∧ call (@complex_n_ice_matzler06 (IEEE.numeric L) [5; PrimFloat.nan; 5000] 100)
             (IEEE.mem0 L)
        = Some (Returns AtEnd
                  (@ice_n (IEEE.numeric L) 100 <$> [5; PrimFloat.nan; 5000])).
Proof.
  split; [reflexivity|]. intros L.
  apply (@nan_entry_passes_frequency_guard (IEEE.numeric L) (ieee_nan L)
           [5; PrimFloat.nan; 5000] 300 100 (IEEE.mem0 L) PrimFloat.nan);
    try reflexivity.
  apply elem_of_cons. right. apply elem_of_cons. by left.
Defined.

Lemma nan_temperature_passes_witness :
  is_nan PrimFloat.nan = true
  ∧ ∀ L,
      call (@complex_n_water_liebe93 (IEEE.numeric L) [10; 1000] PrimFloat.nan)
           (IEEE.mem0 L)
        = Some (Returns AtEnd
                  (@water_n (IEEE.numeric L) PrimFloat.nan <$> [10; 1000]))
      ∧ call (@complex_n_ice_matzler06 (IEEE.numeric L) [0.01; 3000] PrimFloat.nan)
             (IEEE.mem0 L)
        = Some (Returns AtEnd
                  (@ice_n (IEEE.numeric L) PrimFloat.nan <$> [0.01; 3000])).
Proof.
  split; [reflexivity|]. intros L.
  apply (@nan_temperature_passes (IEEE.numeric L) (ieee_nan L)
           (IEEEOrder.order L) [10; 1000] [0.01; 3000] PrimFloat.nan (IEEE.mem0 L));
    try done; repeat constructor.
Defined.

Lemma water_loop_reached_iff_witness :
  is_nan 300 = false
  ∧ ∀ L,
      exited (@complex_n_water_liebe93 (IEEE.numeric L) [10; 1000] 300)
             (IEEE.mem0 L) AtEnd
      ↔ [10; 1000] ≠ [] ∧ (273.15 - 40 <=? 300) = true
        ∧ (300 <=? 273.15 + 100) = true
        ∧ Forall (λ f, (10 <=? f) = true ∧ (f <=? 1000) = true) [10; 1000].
Proof.
  split; [reflexivity|]. intros L.
  apply (water_loop_reached_iff L [10; 1000] 300 (IEEE.mem0 L));
    [reflexivity | repeat constructor].
Defined.

Lemma ice_loop_reached_iff_witness :
  is_nan 273 = false
  ∧ ∀ L,
      exited (@complex_n_ice_matzler06 (IEEE.numeric L) [0.01; 3000] 273)
             (IEEE.mem0 L) AtEnd
      ↔ [0.01; 3000] ≠ [] ∧ (20 <=? 273) = true ∧ (273 <=? 280) = true
        ∧ Forall (λ f, (0.01 <=? f) = true ∧ (f <=? 3000) = true) [0.01; 3000].
Proof.
  split; [reflexivity|]. intros L.
  apply (ice_loop_reached_iff L [0.01; 3000] 273 (IEEE.mem0 L));
    [reflexivity | repeat constructor].
Defined.

Lemma water_rows_concatenate_witness :
  Forall (λ f, is_nan f = false) ([10; 100] ++ [1000])
  ∧ ∀ L,
      (exited (@complex_n_water_liebe93 (IEEE.numeric L) ([10; 100] ++ [1000]) 300)
              (IEEE.mem0 L) AtEnd
       ↔ exited (@complex_n_water_liebe93 (IEEE.numeric L) [10; 100] 300)
                (IEEE.mem0 L) AtEnd
         ∧ exited (@complex_n_water_liebe93 (IEEE.numeric L) [1000] 300)
                  (IEEE.mem0 L) AtEnd)
      ∧ ∀ r1 r2,
          call (@complex_n_water_liebe93 (IEEE.numeric L) [10; 100] 300) (IEEE.mem0 L)
            = Some (Returns AtEnd r1) →
          call (@complex_n_water_liebe93 (IEEE.numeric L) [1000] 300) (IEEE.mem0 L)
            = Some (Returns AtEnd r2) →
          call (@complex_n_water_liebe93 (IEEE.numeric L) ([10; 100] ++ [1000]) 300)
               (IEEE.mem0 L)
            = Some (Returns AtEnd (r1 ++ r2)).
Proof.
  split; [repeat constructor|]. intros L.
  apply (water_rows_concatenate L [10; 100] [1000] 300 (IEEE.mem0 L));
    [repeat constructor | done | done].
Defined.

Lemma ice_rows_concatenate_witness :
  Forall (λ f, is_nan f = false) ([0.01; 100] ++ [3000])
  ∧ ∀ L,
      (exited (@complex_n_ice_matzler06 (IEEE.numeric L) ([0.01; 100] ++ [3000]) 273)
              (IEEE.mem0 L) AtEnd
       ↔ exited (@complex_n_ice_matzler06 (IEEE.numeric L) [0.01; 100] 273)
                (IEEE.mem0 L) AtEnd
         ∧ exited (@complex_n_ice_matzler06 (IEEE.numeric L) [3000] 273)
                  (IEEE.mem0 L) AtEnd)
      ∧ ∀ r1 r2,
          call (@complex_n_ice_matzler06 (IEEE.numeric L) [0.01; 100] 273) (IEEE.mem0 L)
            = Some (Returns AtEnd r1) →
          call (@complex_n_ice_matzler06 (IEEE.numeric L) [3000] 273) (IEEE.mem0 L)
            = Some (Returns AtEnd r2) →
          call (@complex_n_ice_matzler06 (IEEE.numeric L) ([0.01; 100] ++ [3000]) 273)
               (IEEE.mem0 L)
            = Some (Returns AtEnd (r1 ++ r2)).
Proof.
  split; [repeat constructor|]. intros L.
  apply (ice_rows_concatenate L [0.01; 100] [3000] 273 (IEEE.mem0 L));
    [repeat constructor | done | done].
Defined.

End Inputs.
